(** * Span-properties sampling policy (Go package [sampling])

    Shallow embedding of the span-properties policy source: the policy
    [spanPropertiesFilter], its constructor [NewSpanPropertiesFilter], the
    four [PolicyEvaluator] methods and the helper [tsToMicros].

    Modelling choices:
    - Go [int64] values are [Z] with the two's-complement wrap-around of
      [*], [+] and [-] written out by [wrap64]; [int32] values are [Z].
    - Pointers that may be nil are [option]; dereferencing nil is a Go
      panic, modelled by the [Panic] monad below ([None] = panicked).
    - The [regexp] package is a parameter of the development (a Section
      with [compile] and [MatchString]).
    - [spanCount] is a Go [int] counting elements of in-memory slices; it
      cannot exceed [2^63], so it is kept as an unbounded [Z].
    - [trace.Lock()] / [trace.Unlock()] only guard the copy of the slice
      header: in this sequential model the copy is the read of the field. *)

From Stdlib Require Import ZArith String List Bool Lia.
Import ListNotations.
Open Scope Z_scope.

(** ** Go machine integers *)

Definition two64 : Z := 2 ^ 64.
Definition two63 : Z := 2 ^ 63.

(** Two's-complement reduction of an integer to [int64]. *)
Definition wrap64 (z : Z) : Z :=
  let m := z mod two64 in if m <? two63 then m else m - two64.

Definition int64_min : Z := - two63.
Definition int64_max : Z := two63 - 1.

(** ** The panic monad *)

Definition Panic (A : Type) : Type := option A.
Definition ret {A} (a : A) : Panic A := Some a.
Definition panic {A} : Panic A := None.
Definition bind {A B} (m : Panic A) (k : A -> Panic B) : Panic B :=
  match m with Some a => k a | None => None end.
Notation "x <- m ;; k" := (bind m (fun x => k))
  (at level 61, m at next level, right associativity).

(** [*p] on a pointer that may be nil. *)
Definition deref {A} (p : option A) : Panic A :=
  match p with Some a => ret a | None => panic end.

(** [for _, x := range xs { ... }] whose body may panic. *)
Fixpoint range_loop {S A} (body : S -> A -> Panic S) (s : S) (xs : list A)
  : Panic S :=
  match xs with
  | [] => ret s
  | x :: xs' => s' <- body s x ;; range_loop body s' xs'
  end.

(** ** Wire data model (opencensus-proto [tracepb]) *)

(** [timestamp.Timestamp]: [Seconds int64], [Nanos int32]. *)
Record Timestamp := mkTimestamp { Seconds : Z; Nanos : Z }.

(** [tracepb.TruncatableString]. *)
Record TruncatableString := mkTruncatableString { Value : string }.

(** [tracepb.Span], restricted to the fields the policy reads; every one is
    a pointer in the generated Go code. *)
Record Span := mkSpan {
  Name : option TruncatableString;
  StartTime : option Timestamp;
  EndTime : option Timestamp
}.

(** [consumerdata.TraceData]: [Spans []*tracepb.Span]. *)
Record Batch := mkBatch { Spans : list (option Span) }.

(** [sampling.TraceData]: the batches received so far (the mutex omitted). *)
Record TraceData := mkTraceData { ReceivedBatches : list Batch }.

(** [pdata.TraceID]: 16 opaque bytes. *)
Definition TraceID := list Byte.byte.

Inductive Decision := Sampled | NotSampled.

Definition Decision_eqb (a b : Decision) : bool :=
  match a, b with
  | Sampled, Sampled | NotSampled, NotSampled => true
  | _, _ => false
  end.

(** ** [tsToMicros] *)

(** [ts.Seconds*1000000 + int64(ts.Nanos/1000)]: the division is on
    [int32] and truncates toward zero ([Z.quot]); product and sum wrap in
    [int64]; [ts] is a pointer, nil panics. *)
Definition tsToMicros (ts : option Timestamp) : Panic Z :=
  t <- deref ts ;;
  ret (wrap64 (wrap64 (Seconds t * 1000000) + Z.quot (Nanos t) 1000)).

(** Go [error] values met here: [errors.New(msg)], and the
    [*syntax.Error] of [regexp.Compile] (its code and offending text). *)
Inductive GoError :=
| errorString (msg : string)
| syntaxError (code expr : string).

(** [*zap.Logger]: only stored by the policy, never used by it. *)
Definition Logger := unit.

(** ** The policy *)

Section SpanPropertiesFilter.

(** The [regexp] package: [regexp.Compile] and the method [MatchString] of [*Regexp]. *)
Context {Regexp : Type}.
Variable compile : string -> Regexp + GoError.
Variable MatchString : Regexp -> string -> bool.

Record spanPropertiesFilter := mkSpanPropertiesFilter {
  operationRe : option Regexp;
  minDurationMicros : option Z;
  minNumberOfSpans : option Z;
  logger : Logger
}.

Definition missingPropertyMsg : string :=
  "at least one property must be defined"%string.

(** [NewSpanPropertiesFilter]: Go's two results [(PolicyEvaluator, error)],
    a nil evaluator being [None]. *)
Definition NewSpanPropertiesFilter (lg : Logger)
    (operationNamePattern : option string) (minDur : option Z)
    (minSpans : option Z) : option spanPropertiesFilter * option GoError :=
  let built (re : option Regexp) :=
    if (match operationNamePattern, minDur, minSpans with
        | None, None, None => true
        | _, _, _ => false
        end)
    then (None, Some (errorString missingPropertyMsg))
    else (Some (mkSpanPropertiesFilter re minDur minSpans lg), None) in
  match operationNamePattern with
  | Some p =>
      match compile p with
      | inr err => (None, Some err)
      | inl re => built (Some re)
      end
  | None => built None
  end.

(** [OnLateArrivingSpans]: the receiver is returned as the policy state
    after the call, with the error result. *)
Definition OnLateArrivingSpans (df : spanPropertiesFilter)
    (earlyDecision : Decision) (spans : list (option Span))
    : spanPropertiesFilter * option GoError :=
  (df, None).

Definition EvaluateSecondChance (df : spanPropertiesFilter) (_ : TraceID)
    (trace : TraceData) : Panic (Decision * option GoError) :=
  ret (NotSampled, None).

Definition OnDroppedSpans (df : spanPropertiesFilter) (_ : TraceID)
    (_ : TraceData) : Panic (Decision * option GoError) :=
  ret (NotSampled, None).

(** Local variables of [Evaluate] written by the inner loop. *)
Record loopVars := mkLoopVars {
  matchingOperationFound : bool;
  minStartTime : Z;
  maxEndTime : Z
}.

Definition initLoopVars : loopVars := mkLoopVars false 0 0.

(** Body of [for _, span := range batch.Spans]. *)
Definition spanStep (df : spanPropertiesFilter) (v : loopVars)
    (span : option Span) : Panic loopVars :=
  match span with
  | None => ret v                                        (* continue *)
  | Some sp =>
      found <-
        (match operationRe df with
         | Some re =>
             if negb (matchingOperationFound v) then
               nm <- deref (Name sp) ;;
               ret (if MatchString re (Value nm) then true
                    else matchingOperationFound v)
             else ret (matchingOperationFound v)
         | None => ret (matchingOperationFound v)
         end) ;;
      match minDurationMicros df with
      | Some _ =>
          startTs <- tsToMicros (StartTime sp) ;;
          endTs <- tsToMicros (EndTime sp) ;;
          if minStartTime v =? 0 then ret (mkLoopVars found startTs endTs)
          else
            let mn := if startTs <? minStartTime v then startTs
                      else minStartTime v in
            let mx := if endTs >? maxEndTime v then endTs
                      else maxEndTime v in
            ret (mkLoopVars found mn mx)
      | None => ret (mkLoopVars found (minStartTime v) (maxEndTime v))
      end
  end.

(** Body of [for _, batch := range batches]: [spanCount] is advanced by
    [len(batch.Spans)] before the inner loop. *)
Definition batchStep (df : spanPropertiesFilter) (s : Z * loopVars)
    (batch : Batch) : Panic (Z * loopVars) :=
  let '(spanCount, v) := s in
  let spanCount' := spanCount + Z.of_nat (List.length (Spans batch)) in
  v' <- range_loop (spanStep df) v (Spans batch) ;;
  ret (spanCount', v').

Definition scanBatches (df : spanPropertiesFilter) (batches : list Batch)
    : Panic (Z * loopVars) :=
  range_loop (batchStep df) (0, initLoopVars) batches.

(** The three conditions after the loop. *)
Definition operationNameConditionMet (df : spanPropertiesFilter)
    (v : loopVars) : bool :=
  match operationRe df with
  | Some _ => matchingOperationFound v
  | None => true
  end.

Definition minDurationConditionMet (df : spanPropertiesFilter)
    (v : loopVars) : bool :=
  match minDurationMicros df with
  | Some d => (maxEndTime v >? minStartTime v)
              && (wrap64 (maxEndTime v - minStartTime v) >=? d)
  | None => true
  end.

Definition minSpanCountConditionMet (df : spanPropertiesFilter)
    (spanCount : Z) : bool :=
  match minNumberOfSpans df with
  | Some n => spanCount >=? n
  | None => true
  end.

Definition Evaluate (df : spanPropertiesFilter) (_ : TraceID)
    (trace : TraceData) : Panic (Decision * option GoError) :=
  let batches := ReceivedBatches trace in
  r <- scanBatches df batches ;;
  let '(spanCount, v) := r in
  if minDurationConditionMet df v && operationNameConditionMet df v
     && minSpanCountConditionMet df spanCount
  then ret (Sampled, None)
  else ret (NotSampled, None).

End SpanPropertiesFilter.

Arguments spanPropertiesFilter : clear implicits.
Arguments loopVars : clear implicits.

(** ** Spans of a trace, as read by the specification *)

(** Every entry of every batch, in scan order (null entries included). *)
Definition allSpans (batches : list Batch) : list (option Span) :=
  concat (map Spans batches).

Fixpoint somes {A} (xs : list (option A)) : list A :=
  match xs with
  | [] => []
  | Some x :: xs' => x :: somes xs'
  | None :: xs' => somes xs'
  end.

Definition nonNullSpans (batches : list Batch) : list Span :=
  somes (allSpans batches).

(** The trace with its null span entries removed. *)
Definition stripNulls (batches : list Batch) : list Batch :=
  map (fun b => mkBatch (map Some (somes (Spans b)))) batches.

Definition totalEntries (batches : list Batch) : Z :=
  Z.of_nat (List.length (allSpans batches)).

Definition nullEntries (batches : list Batch) : Z :=
  Z.of_nat (List.length (allSpans batches) - List.length (nonNullSpans batches)).

(** A non-null span with every pointer field the policy reads set. *)
Definition fieldsPresent (sp : Span) : bool :=
  match Name sp, StartTime sp, EndTime sp with
  | Some _, Some _, Some _ => true
  | _, _, _ => false
  end.

(** ** A literal-pattern regexp engine for concrete runs

    Patterns containing [(] are rejected (as an unclosed group would be);
    any other pattern matches the strings that contain it. *)
Module LiteralRegexp.

Definition re := string.
Definition compile (p : string) : re + GoError :=
  match index 0 "("%string p with
  | Some _ => inr (syntaxError "missing closing )" p)
  | None => inl p
  end.

Definition MatchString (r : re) (s : string) : bool :=
  match index 0 r s with Some _ => true | None => false end.

End LiteralRegexp.

(** ** Sample traces *)

Definition micros (us : Z) : Timestamp := mkTimestamp (us / 1000000) ((us mod 1000000) * 1000).

Definition timedSpan (name : string) (startUs endUs : Z) : Span :=
  mkSpan (Some (mkTruncatableString name)) (Some (micros startUs))
         (Some (micros endUs)).

(** Two batches of one span each: [0..100] and [50..300] microseconds. *)
Definition twoBatchTrace : TraceData :=
  mkTraceData [mkBatch [Some (timedSpan "a"%string 0 100)];
               mkBatch [Some (timedSpan "b"%string 50 300)]].

Definition durationPolicy (d : Z) : spanPropertiesFilter LiteralRegexp.re :=
  mkSpanPropertiesFilter None (Some d) None tt.

Definition countPolicy (n : Z) : spanPropertiesFilter LiteralRegexp.re :=
  mkSpanPropertiesFilter None None (Some n) tt.

Definition someTraceID : TraceID := repeat Byte.x01 16.

Definition namePolicy (p : string) : spanPropertiesFilter LiteralRegexp.re :=
  mkSpanPropertiesFilter (Some p) None None tt.

(** A span whose [Name] pointer is nil. *)
Definition unnamedSpan : Span :=
  mkSpan None (Some (micros 0)) (Some (micros 10)).

(** One batch holding a span and a null entry. *)
Definition nullEntryTrace : TraceData :=
  mkTraceData [mkBatch [Some (timedSpan "a"%string 0 10); None]].

Definition unnamedFirstTrace : TraceData :=
  mkTraceData [mkBatch [Some unnamedSpan; Some (timedSpan "a"%string 0 10)]].

Definition unnamedAfterMatchTrace : TraceData :=
  mkTraceData [mkBatch [Some (timedSpan "a"%string 0 10); Some unnamedSpan]].

Definition emptyTrace : TraceData := mkTraceData [].

(** The spans of [twoBatchTrace] delivered as one batch. *)
Definition regroupedTrace : TraceData :=
  mkTraceData [mkBatch [Some (timedSpan "a"%string 0 100);
                        Some (timedSpan "b"%string 50 300)]].

(** A late batch with a nameless span and a null entry. *)
Definition lateBatches : list Batch := [mkBatch [Some unnamedSpan; None]].

(** Spans at [10..100] and [50..300] microseconds, a null entry between. *)
Definition windowTrace : TraceData :=
  mkTraceData [mkBatch [Some (timedSpan "a"%string 10 100)];
               mkBatch [None; Some (timedSpan "b"%string 50 300)]].

(** A policy with all three criteria: pattern [b], 290 microseconds and
    3 entries. *)
Definition fullPolicy : spanPropertiesFilter LiteralRegexp.re :=
  mkSpanPropertiesFilter (Some "b"%string) (Some 290) (Some 3) tt.

(** A nameless span behind a non-matching one and ahead of a match. *)
Definition unnamedSecondTrace : TraceData :=
  mkTraceData [mkBatch [Some (timedSpan "x"%string 0 10); Some unnamedSpan;
                        Some (timedSpan "a"%string 0 10)]].

(** [unnamedAfterMatchTrace] with the nameless span named. *)
Definition namedAfterMatchTrace : TraceData :=
  mkTraceData [mkBatch [Some (timedSpan "a"%string 0 10);
                        Some (timedSpan "z"%string 0 10)]].
(** ** Criteria as the specification states them *)

Section Criteria.

Context {Regexp : Type}.
Variable MatchString : Regexp -> string -> bool.

Definition nameMatches (re : Regexp) (sp : Span) : bool :=
  match Name sp with
  | Some nm => MatchString re (Value nm)
  | None => false
  end.

(** The window [(minStartTime, maxEndTime)] the loop of [Evaluate] builds
    over the spans: a span found while the lower bound is [0] (the unset
    value) re-initialises both bounds. *)
Fixpoint windowFold (w : Z * Z) (xs : list Span) : Panic (Z * Z) :=
  match xs with
  | [] => ret w
  | sp :: xs' =>
      s <- tsToMicros (StartTime sp) ;;
      e <- tsToMicros (EndTime sp) ;;
      windowFold (if fst w =? 0 then (s, e)
                  else (Z.min s (fst w), Z.max e (snd w))) xs'
  end.

(** Operation-name criterion: some non-null span has a matching name. *)
Definition opCriterion (df : spanPropertiesFilter Regexp)
    (batches : list Batch) : Prop :=
  match operationRe df with
  | Some re => exists sp, In sp (nonNullSpans batches) /\ nameMatches re sp = true
  | None => True
  end.

(** The window of the specification: the bounds are initialised by the
    first span and then widened, [minStartTime] downward and [maxEndTime]
    upward; with no span they keep their unset value [(0, 0)]. *)
Fixpoint widenWindow (w : Z * Z) (xs : list Span) : Panic (Z * Z) :=
  match xs with
  | [] => ret w
  | sp :: xs' =>
      s <- tsToMicros (StartTime sp) ;;
      e <- tsToMicros (EndTime sp) ;;
      widenWindow (Z.min s (fst w), Z.max e (snd w)) xs'
  end.

Definition specWindow (xs : list Span) : Panic (Z * Z) :=
  match xs with
  | [] => ret (0, 0)
  | sp :: xs' =>
      s <- tsToMicros (StartTime sp) ;;
      e <- tsToMicros (EndTime sp) ;;
      widenWindow (s, e) xs'
  end.

(** Duration criterion: [maxEndTime > minStartTime] and
    [maxEndTime - minStartTime >= threshold] on the window of the
    non-null spans. *)
Definition durCriterion (df : spanPropertiesFilter Regexp)
    (batches : list Batch) : Prop :=
  match minDurationMicros df with
  | Some d => exists mn mx,
      specWindow (nonNullSpans batches) = Some (mn, mx)
      /\ mx > mn /\ mx - mn >= d
  | None => True
  end.

(** Span-count criterion over the [spanCount] of the code, which counts
    every entry of each batch. *)
Definition countCriterion (df : spanPropertiesFilter Regexp)
    (batches : list Batch) : Prop :=
  match minNumberOfSpans df with
  | Some n => totalEntries batches >= n
  | None => True
  end.

End Criteria.

(** ** Sequences of calls on one policy instance *)

Inductive PolicyCall :=
| callOnLateArrivingSpans (d : Decision) (spans : list (option Span))
| callEvaluate (tid : TraceID) (t : TraceData)
| callEvaluateSecondChance (tid : TraceID) (t : TraceData)
| callOnDroppedSpans (tid : TraceID) (t : TraceData).

Section Calls.

Context {Regexp : Type}.
Variable MatchString : Regexp -> string -> bool.

Inductive CallResult :=
| lateResult (e : option GoError)
| decisionResult (r : Panic (Decision * option GoError)).

(** The calls run in order on the policy instance; only
    [OnLateArrivingSpans] hands back a state, the other methods do not
    write their receiver. *)
Fixpoint runCalls (df : spanPropertiesFilter Regexp) (cs : list PolicyCall)
    : list CallResult :=
  match cs with
  | [] => []
  | callOnLateArrivingSpans d spans :: cs' =>
      let '(df', e) := OnLateArrivingSpans df d spans in
      lateResult e :: runCalls df' cs'
  | callEvaluate tid t :: cs' =>
      decisionResult (Evaluate MatchString df tid t) :: runCalls df cs'
  | callEvaluateSecondChance tid t :: cs' =>
      decisionResult (EvaluateSecondChance df tid t) :: runCalls df cs'
  | callOnDroppedSpans tid t :: cs' =>
      decisionResult (OnDroppedSpans df tid t) :: runCalls df cs'
  end.

Definition isLateCall (c : PolicyCall) : bool :=
  match c with callOnLateArrivingSpans _ _ => true | _ => false end.

Definition decisionResults (rs : list CallResult) : list CallResult :=
  filter (fun r => match r with decisionResult _ => true | _ => false end) rs.

Definition lateErrors (rs : list CallResult) : list (option GoError) :=
  flat_map (fun r => match r with lateResult e => [e] | _ => [] end) rs.

End Calls.

(** ** Policies and traces derived from others *)

Section Derived.

Context {Regexp : Type}.

(** The policy keeping one criterion of [df] and leaving the others unset. *)
Definition onlyName (df : spanPropertiesFilter Regexp) : spanPropertiesFilter Regexp :=
  mkSpanPropertiesFilter (operationRe df) None None (logger df).

Definition onlyDuration (df : spanPropertiesFilter Regexp) : spanPropertiesFilter Regexp :=
  mkSpanPropertiesFilter None (minDurationMicros df) None (logger df).

Definition onlyCount (df : spanPropertiesFilter Regexp) : spanPropertiesFilter Regexp :=
  mkSpanPropertiesFilter None None (minNumberOfSpans df) (logger df).

End Derived.

(** Results of three evaluations combined: a panic if one panics, else
    [Sampled] iff all three are [Sampled]. *)
Definition andResults (r1 r2 r3 : Panic (Decision * option GoError))
    : Panic (Decision * option GoError) :=
  a <- r1 ;; b <- r2 ;; c <- r3 ;;
  match fst a, fst b, fst c with
  | Sampled, Sampled, Sampled => ret (Sampled, None)
  | _, _, _ => ret (NotSampled, None)
  end.

Definition mapSpans (f : Span -> Span) (t : TraceData) : TraceData :=
  mkTraceData (map (fun b => mkBatch (map (option_map f) (Spans b)))
                   (ReceivedBatches t)).

(** The trace with every span's timestamps, resp. name, set to nil. *)
Definition eraseTimes : TraceData -> TraceData :=
  mapSpans (fun sp => mkSpan (Name sp) None None).

Definition eraseNames : TraceData -> TraceData :=
  mapSpans (fun sp => mkSpan None (StartTime sp) (EndTime sp)).

(** Start and end of a span in microseconds. *)
Definition spanBounds (sp : Span) : Panic (Z * Z) :=
  s <- tsToMicros (StartTime sp) ;; e <- tsToMicros (EndTime sp) ;; ret (s, e).

(** Match flag of the first loop state, bounds of the second. *)
Definition mergeLoopVars (a b : Panic loopVars) : Panic loopVars :=
  match a, b with
  | Some a, Some b =>
      Some (mkLoopVars (matchingOperationFound a) (minStartTime b) (maxEndTime b))
  | _, _ => None
  end.

Fixpoint boundsOf (xs : list Span) : Panic (list (Z * Z)) :=
  match xs with
  | [] => ret []
  | sp :: xs' => b <- spanBounds sp ;; bs <- boundsOf xs' ;; ret (b :: bs)
  end.


(** ** General lemmas *)

Lemma bind_ret {A B} (a : A) (k : A -> Panic B) : bind (ret a) k = k a.
Proof. reflexivity. Qed.

Lemma bind_assoc {A B C} (m : Panic A) (k : A -> Panic B) (h : B -> Panic C) :
  bind (bind m k) h = bind m (fun a => bind (k a) h).
Proof. destruct m; reflexivity. Qed.

Lemma range_loop_app {S A} (body : S -> A -> Panic S) s xs ys :
  range_loop body s (xs ++ ys) = bind (range_loop body s xs) (fun s' => range_loop body s' ys).
Proof.
  revert s; induction xs as [|x xs IH]; intro s; simpl; [reflexivity|].
  destruct (body s x); simpl; [apply IH|reflexivity].
Qed.

Lemma somes_app {A} (xs ys : list (option A)) : somes (xs ++ ys) = somes xs ++ somes ys.
Proof. induction xs as [|[x|] xs IH]; simpl; congruence. Qed.

Lemma somes_map_Some {A} (xs : list A) : somes (map Some xs) = xs.
Proof. induction xs; simpl; congruence. Qed.

Lemma somes_length {A} (xs : list (option A)) : (List.length (somes xs) <= List.length xs)%nat.
Proof. induction xs as [|[x|] xs IH]; simpl; lia. Qed.

Lemma allSpans_cons b bs : allSpans (b :: bs) = Spans b ++ allSpans bs.
Proof. reflexivity. Qed.

Lemma totalEntries_cons b bs :
  totalEntries (b :: bs) = Z.of_nat (List.length (Spans b)) + totalEntries bs.
Proof. unfold totalEntries. rewrite allSpans_cons, length_app. lia. Qed.

Lemma totalEntries_nonneg bs : 0 <= totalEntries bs.
Proof. unfold totalEntries. lia. Qed.

(** ** The loops of [Evaluate] *)

Section Scan.

Context {Regexp : Type}.
Variable MatchString : Regexp -> string -> bool.
Variable df : spanPropertiesFilter Regexp.

(** The outer loop only adds the batch lengths to [spanCount]; the inner
    loop runs over the concatenation of the batches. *)
Lemma batches_flatten bs c v :
  range_loop (batchStep MatchString df) (c, v) bs
  = bind (range_loop (spanStep MatchString df) v (allSpans bs))
         (fun v' => ret (c + totalEntries bs, v')).
Proof.
  revert c v; induction bs as [|b bs IH]; intros c v.
  - simpl. unfold totalEntries; simpl. now rewrite Z.add_0_r.
  - rewrite allSpans_cons, range_loop_app, totalEntries_cons. simpl.
    destruct (range_loop (spanStep MatchString df) v (Spans b)) as [v1|]; simpl; [|reflexivity].
    rewrite IH. destruct (range_loop (spanStep MatchString df) v1 (allSpans bs)); simpl; [|reflexivity].
    f_equal. f_equal. lia.
Qed.

Lemma scanBatches_flatten bs :
  scanBatches MatchString df bs
  = bind (range_loop (spanStep MatchString df) initLoopVars (allSpans bs))
         (fun v' => ret (totalEntries bs, v')).
Proof. unfold scanBatches. now rewrite batches_flatten. Qed.

(** Null entries are [continue]d. *)
Lemma range_loop_skip_nulls v ss :
  range_loop (spanStep MatchString df) v ss = range_loop (spanStep MatchString df) v (map Some (somes ss)).
Proof.
  revert v; induction ss as [|[sp|] ss IH]; intro v;
    cbn [range_loop somes map]; [reflexivity| |].
  - destruct (spanStep MatchString df v (Some sp)); simpl; [apply IH|reflexivity].
  - apply IH.
Qed.

Lemma allSpans_stripNulls bs : allSpans (stripNulls bs) = map Some (nonNullSpans bs).
Proof.
  unfold nonNullSpans; induction bs as [|b bs IH]; [reflexivity|].
  unfold stripNulls in *. simpl map. rewrite !allSpans_cons, somes_app, map_app, IH.
  reflexivity.
Qed.

(** The decision depends on the loop results only. *)
Lemma Evaluate_scan tid t :
  Evaluate MatchString df tid t
  = bind (scanBatches MatchString df (ReceivedBatches t))
      (fun r => let '(spanCount, v) := r in
         if minDurationConditionMet df v && operationNameConditionMet df v
            && minSpanCountConditionMet df spanCount
         then ret (Sampled, None) else ret (NotSampled, None)).
Proof. reflexivity. Qed.

Lemma ltb_select_min a b : (if a <? b then a else b) = Z.min a b.
Proof. destruct (Z.ltb_spec a b); lia. Qed.

Lemma gtb_select_max a b : (if a >? b then a else b) = Z.max a b.
Proof. rewrite Z.gtb_ltb. destruct (Z.ltb_spec b a); lia. Qed.

Definition foundAfter (v : loopVars) (xs : list Span) : bool :=
  match operationRe df with
  | Some re => matchingOperationFound v || existsb (nameMatches MatchString re) xs
  | None => matchingOperationFound v
  end.

Definition windowAfter (v : loopVars) (xs : list Span) : Panic (Z * Z) :=
  match minDurationMicros df with
  | Some _ => windowFold (minStartTime v, maxEndTime v) xs
  | None => ret (minStartTime v, maxEndTime v)
  end.

(** One non-null span with its fields set. *)
Lemma spanStep_present v sp :
  fieldsPresent sp = true ->
  exists v1, spanStep MatchString df v (Some sp) = Some v1
    /\ matchingOperationFound v1 = foundAfter v [sp]
    /\ (forall xs, windowAfter v (sp :: xs) = windowAfter v1 xs).
Proof.
  intro H. destruct sp as [[nm|] [st|] [en|]]; try discriminate H.
  unfold foundAfter, windowAfter, spanStep, nameMatches; cbn [Name StartTime EndTime existsb].
  destruct (operationRe df) as [re|];
    [destruct (matchingOperationFound v) eqn:Hf|];
    (destruct (minDurationMicros df) as [d|];
     [destruct (minStartTime v =? 0) eqn:H0|]);
    cbn [negb deref bind ret tsToMicros];
    eexists; (split; [reflexivity|]); cbn [matchingOperationFound minStartTime maxEndTime];
    try (rewrite ?orb_false_r, ?Hf; split;
         [try (destruct (MatchString re (Value nm)); reflexivity); reflexivity|]);
    intro xs; cbn [windowFold tsToMicros deref bind ret fst snd];
    rewrite ?H0, ?ltb_select_min, ?gtb_select_max; reflexivity.
Qed.

(** The inner loop over non-null spans with their fields set never
    panics, and computes [foundAfter] and [windowAfter]. *)
Lemma range_loop_present xs v :
  forallb fieldsPresent xs = true ->
  exists v', range_loop (spanStep MatchString df) v (map Some xs) = Some v'
    /\ matchingOperationFound v' = foundAfter v xs
    /\ windowAfter v xs = ret (minStartTime v', maxEndTime v').
Proof.
  revert v; induction xs as [|sp xs IH]; intros v H.
  - exists v. split; [reflexivity|]. unfold foundAfter, windowAfter. split.
    + destruct (operationRe df); cbn; [now rewrite orb_false_r|reflexivity].
    + destruct (minDurationMicros df); reflexivity.
  - apply andb_true_iff in H as [Hsp Hxs].
    destruct (spanStep_present v sp Hsp) as (v1 & Hstep & Hf & Hw).
    destruct (IH v1 Hxs) as (v' & Hloop & Hf' & Hw').
    exists v'. cbn [map range_loop]. rewrite Hstep. cbn [bind].
    split; [exact Hloop|]. split.
    + rewrite Hf'. unfold foundAfter in *. cbn [existsb] in *.
      destruct (operationRe df); [|assumption].
      rewrite Hf, orb_false_r. symmetry. apply orb_assoc.
    + rewrite Hw. exact Hw'.
Qed.

Lemma operationNameCondition_iff bs v :
  matchingOperationFound v = foundAfter initLoopVars (nonNullSpans bs) ->
  operationNameConditionMet df v = true <-> opCriterion MatchString df bs.
Proof.
  intro Hf. unfold operationNameConditionMet, opCriterion.
  unfold foundAfter in Hf. destruct (operationRe df) as [re|]; [|tauto].
  rewrite Hf. cbn [matchingOperationFound initLoopVars orb].
  apply existsb_exists.
Qed.

(** The duration condition of the code on the window [windowFold]
    computes. *)
Lemma minDurationCondition_iff bs v :
  windowAfter initLoopVars (nonNullSpans bs) = ret (minStartTime v, maxEndTime v) ->
  minDurationConditionMet df v = true
  <-> match minDurationMicros df with
      | Some d => exists mn mx,
          windowFold (0, 0) (nonNullSpans bs) = Some (mn, mx)
          /\ mx > mn /\ wrap64 (mx - mn) >= d
      | None => True
      end.
Proof.
  intro Hw. unfold minDurationConditionMet.
  unfold windowAfter in Hw. destruct (minDurationMicros df) as [d|]; [|tauto].
  cbn [minStartTime maxEndTime initLoopVars] in Hw. rewrite Hw.
  rewrite andb_true_iff, Z.gtb_lt, Z.geb_le. split.
  - intros [H1 H2]. exists (minStartTime v), (maxEndTime v). repeat split; lia.
  - intros (mn & mx & Heq & H1 & H2). injection Heq as <- <-. lia.
Qed.

Lemma minSpanCountCondition_iff bs :
  minSpanCountConditionMet df (totalEntries bs) = true <-> countCriterion df bs.
Proof.
  unfold minSpanCountConditionMet, countCriterion.
  destruct (minNumberOfSpans df); [rewrite Z.geb_le; lia|tauto].
Qed.

(** [Evaluate] on a trace whose non-null spans have their fields set. *)
Lemma Evaluate_present tid t :
  (forall sp, In sp (nonNullSpans (ReceivedBatches t)) -> fieldsPresent sp = true) ->
  exists v,
    matchingOperationFound v = foundAfter initLoopVars (nonNullSpans (ReceivedBatches t))
    /\ windowAfter initLoopVars (nonNullSpans (ReceivedBatches t))
       = ret (minStartTime v, maxEndTime v)
    /\ Evaluate MatchString df tid t
       = Some (if minDurationConditionMet df v && operationNameConditionMet df v
                  && minSpanCountConditionMet df (totalEntries (ReceivedBatches t))
               then Sampled else NotSampled, None).
Proof.
  intro H. rewrite Evaluate_scan, scanBatches_flatten, range_loop_skip_nulls.
  destruct (range_loop_present (nonNullSpans (ReceivedBatches t)) initLoopVars)
    as (v & Hloop & Hf & Hw).
  { apply forallb_forall. exact H. }
  exists v. split; [exact Hf|]. split; [exact Hw|].
  unfold nonNullSpans in Hloop. rewrite Hloop. cbn [bind ret].
  destruct (_ && _ && _); reflexivity.
Qed.

End Scan.

(** ** [int64] arithmetic *)

Lemma two64_val : two64 = 18446744073709551616.
Proof. reflexivity. Qed.

Lemma two63_val : two63 = 9223372036854775808.
Proof. reflexivity. Qed.

Lemma wrap64_congr a b : a mod two64 = b mod two64 -> wrap64 a = wrap64 b.
Proof. intro H. unfold wrap64. now rewrite H. Qed.

Lemma wrap64_mod z : wrap64 z mod two64 = z mod two64.
Proof.
  unfold wrap64. destruct (z mod two64 <? two63).
  - apply Z.mod_mod. rewrite two64_val; lia.
  - replace (z mod two64 - two64) with (z mod two64 + (-1) * two64) by lia.
    rewrite Z_mod_plus_full. apply Z.mod_mod. rewrite two64_val; lia.
Qed.

Lemma wrap64_small z : int64_min <= z <= int64_max -> wrap64 z = z.
Proof.
  unfold int64_min, int64_max, wrap64. rewrite two63_val, two64_val. intro H.
  destruct (Z_le_gt_dec 0 z).
  - rewrite Z.mod_small by lia. destruct (Z.ltb_spec z 9223372036854775808); lia.
  - rewrite <- (Z_mod_plus_full z 1 18446744073709551616).
    rewrite Z.mod_small by lia.
    destruct (Z.ltb_spec (z + 1 * 18446744073709551616) 9223372036854775808); lia.
Qed.

(** ** Claims *)

(** ** The window of the loop and the window of the specification *)

(** Once the lower bound is set, the loop widens the window as the
    specification does, as long as no span starts at [0]. *)
Lemma windowFold_widen xs : forall w,
  fst w <> 0 ->
  (forall sp, In sp xs -> tsToMicros (StartTime sp) <> Some 0) ->
  windowFold w xs = widenWindow w xs.
Proof.
  induction xs as [|sp xs IH]; intros w Hw Hz; [reflexivity|].
  cbn [windowFold widenWindow].
  destruct (tsToMicros (StartTime sp)) as [s|] eqn:Es; cbn [bind]; [|reflexivity].
  destruct (tsToMicros (EndTime sp)) as [e|]; cbn [bind]; [|reflexivity].
  apply Z.eqb_neq in Hw as Hw0. rewrite Hw0.
  assert (Hs : s <> 0).
  { intro H0. apply (Hz sp); [left; reflexivity|]. rewrite Es, H0. reflexivity. }
  apply IH.
  - cbn [fst]. destruct (Z.min_spec s (fst w)) as [[_ ->]|[_ ->]]; assumption.
  - intros q Hq. apply Hz. right. exact Hq.
Qed.

Lemma windowFold_specWindow xs :
  (forall sp, In sp xs -> tsToMicros (StartTime sp) <> Some 0) ->
  windowFold (0, 0) xs = specWindow xs.
Proof.
  intro Hz. destruct xs as [|sp xs]; [reflexivity|].
  cbn [windowFold specWindow].
  destruct (tsToMicros (StartTime sp)) as [s|] eqn:Es; cbn [bind]; [|reflexivity].
  destruct (tsToMicros (EndTime sp)) as [e|]; cbn [bind]; [|reflexivity].
  cbn [fst Z.eqb]. apply windowFold_widen.
  - cbn [fst]. intro H0. apply (Hz sp); [left; reflexivity|]. rewrite Es, H0. reflexivity.
  - intros q Hq. apply Hz. right. exact Hq.
Qed.

(** With no span starting at [0] and a window narrower than [int64_max],
    the code's duration condition is the specification's criterion. *)
Lemma durCriterion_code {Regexp : Type} (df : spanPropertiesFilter Regexp) bs :
  (minDurationMicros df <> None ->
     (forall sp, In sp (nonNullSpans bs) -> tsToMicros (StartTime sp) <> Some 0)
     /\ (forall mn mx, specWindow (nonNullSpans bs) = Some (mn, mx) -> mx - mn <= int64_max)) ->
  (match minDurationMicros df with
   | Some d => exists mn mx,
       windowFold (0, 0) (nonNullSpans bs) = Some (mn, mx)
       /\ mx > mn /\ wrap64 (mx - mn) >= d
   | None => True
   end <-> durCriterion df bs).
Proof.
  intro H. unfold durCriterion. destruct (minDurationMicros df) as [d|]; [|tauto].
  destruct (H ltac:(discriminate)) as [Hz Hwidth].
  rewrite (windowFold_specWindow _ Hz).
  assert (Hsmall : forall mn mx, specWindow (nonNullSpans bs) = Some (mn, mx) ->
                     mx > mn -> wrap64 (mx - mn) = mx - mn).
  { intros mn mx Hw Hgt. apply wrap64_small. specialize (Hwidth mn mx Hw).
    unfold int64_min. rewrite two63_val. lia. }
  split; intros (mn & mx & Hw & Hgt & Hd); exists mn, mx;
    rewrite (Hsmall mn mx Hw Hgt) in *; repeat split; assumption.
Qed.

Section Claims.

Context {Regexp : Type}.
Variable compile : string -> Regexp + GoError.
Variable MatchString : Regexp -> string -> bool.

Lemma spanStep_found df v sp v1 re :
  operationRe df = Some re -> matchingOperationFound v = false ->
  spanStep MatchString df v (Some sp) = Some v1 ->
  matchingOperationFound v1 = nameMatches MatchString re sp.
Proof.
  intros Hre Hf H. unfold spanStep in H. rewrite Hre, Hf in H.
  unfold nameMatches. destruct (Name sp) as [nm|]; [|discriminate H].
  cbn [negb deref bind ret] in H.
  destruct (minDurationMicros df);
    [destruct (tsToMicros (StartTime sp)), (tsToMicros (EndTime sp));
     cbn [bind ret] in H; try discriminate H;
     destruct (minStartTime v =? 0)|];
    injection H as <-; cbn; destruct (MatchString re (Value nm)); reflexivity.
Qed.

Lemma prefix_no_match df re pre v v' :
  operationRe df = Some re -> matchingOperationFound v = false ->
  (forall q, In q (somes pre) -> nameMatches MatchString re q = false) ->
  range_loop (spanStep MatchString df) v pre = Some v' ->
  matchingOperationFound v' = false.
Proof.
  intros Hre. revert v; induction pre as [|[sp|] pre IH]; intros v Hf Hq H.
  - cbn [range_loop ret] in H. injection H as <-. exact Hf.
  - cbn [range_loop] in H.
    destruct (spanStep MatchString df v (Some sp)) as [v1|] eqn:E; [|discriminate H].
    apply (IH v1); [| |exact H].
    + rewrite (spanStep_found df v sp v1 re Hre Hf E). apply Hq. left; reflexivity.
    + intros q Hin. apply Hq. right; exact Hin.
  - cbn [range_loop] in H. cbn [spanStep ret bind] in H.
    exact (IH v Hf Hq H).
Qed.

(** A match, once found, stays found; a matching non-null span sets it. *)
Lemma prefix_match_found df re pre :
  operationRe df = Some re -> forall v v',
  (matchingOperationFound v = true
   \/ exists q, In q (somes pre) /\ nameMatches MatchString re q = true) ->
  range_loop (spanStep MatchString df) v pre = Some v' ->
  matchingOperationFound v' = true.
Proof.
  intro Hre. induction pre as [|[sp|] pre IH]; intros v v' Hm H.
  - cbn [range_loop ret] in H. injection H as <-.
    destruct Hm as [Hm|(q & [] & _)]. exact Hm.
  - cbn [range_loop] in H.
    destruct (spanStep MatchString df v (Some sp)) as [v1|] eqn:E;
      cbn [bind] in H; [|discriminate H].
    apply (IH v1 v'); [|exact H].
    destruct (matchingOperationFound v) eqn:Hf.
    + left. unfold spanStep in E. rewrite Hre, Hf in E. cbn [negb bind ret] in E.
      destruct (minDurationMicros df);
        [destruct (tsToMicros (StartTime sp)), (tsToMicros (EndTime sp));
         cbn [bind ret] in E; try discriminate E;
         destruct (minStartTime v =? 0)|];
        injection E as <-; reflexivity.
    + rewrite (spanStep_found df v sp v1 re Hre Hf E).
      destruct Hm as [Hm|(q & [<-|Hq] & Hmq)]; [discriminate Hm|left; exact Hmq|].
      destruct (nameMatches MatchString re sp); [left; reflexivity|].
      right. exists q. split; assumption.
  - cbn [range_loop spanStep bind ret] in H. exact (IH v v' Hm H).
Qed.

Lemma range_loop_unconfigured df ss v :
  operationRe df = None -> minDurationMicros df = None ->
  range_loop (spanStep MatchString df) v ss = Some v.
Proof.
  intros Hre Hd. revert v; induction ss as [|[sp|] ss IH]; intro v; [reflexivity| |].
  - cbn [range_loop]. unfold spanStep at 1. rewrite Hre, Hd. cbn [bind ret].
    destruct v; apply IH.
  - apply IH.
Qed.

(** C2 (amended): null entries are skipped by the inner loop, which runs
    as on the trace without them and never panics on them, while the
    [spanCount] of [Evaluate] is the number of all entries, null ones
    included; without a span-count threshold the decision is the one on
    the trace without null entries. *)
Theorem spanCount_counts_null_entries df bs :
  scanBatches MatchString df bs
  = bind (scanBatches MatchString df (stripNulls bs))
         (fun r => ret (fst r + nullEntries bs, snd r))
  /\ (forall c v, scanBatches MatchString df bs = Some (c, v) -> c = totalEntries bs)
  /\ (forall tid, minNumberOfSpans df = None ->
      Evaluate MatchString df tid (mkTraceData bs)
      = Evaluate MatchString df tid (mkTraceData (stripNulls bs))).
Proof.
  assert (Hlen : totalEntries bs = totalEntries (stripNulls bs) + nullEntries bs).
  { unfold totalEntries, nullEntries. rewrite allSpans_stripNulls, length_map.
    pose proof (somes_length (allSpans bs)). unfold nonNullSpans. lia. }
  assert (Hscan : scanBatches MatchString df bs
    = bind (scanBatches MatchString df (stripNulls bs))
           (fun r => ret (fst r + nullEntries bs, snd r))).
  { rewrite !scanBatches_flatten, allSpans_stripNulls.
    rewrite range_loop_skip_nulls. unfold nonNullSpans.
    destruct (range_loop _ _ _); cbn [bind ret fst snd]; [|reflexivity].
    now rewrite Hlen. }
  split; [exact Hscan|]. split.
  - intros c v H. rewrite scanBatches_flatten in H.
    destruct (range_loop _ _ _); cbn [bind ret] in H; [|discriminate H].
    injection H as <- _. reflexivity.
  - intros tid Hn. rewrite !Evaluate_scan. cbn [ReceivedBatches]. rewrite Hscan.
    destruct (scanBatches MatchString df (stripNulls bs)) as [[c v]|]; [|reflexivity].
    cbn [bind ret fst snd]. unfold minSpanCountConditionMet. rewrite Hn. reflexivity.
Qed.

(** C3 (amended): when every non-null span has its name and timestamps
    set, [Evaluate] returns a decision with a nil error, and the decision is
    [Sampled] iff each configured criterion holds: some non-null span has a
    matching name, the window of the non-null spans (first span's bounds,
    then widened) passes the duration check, and the span count (all
    entries) reaches the threshold. With a duration threshold this holds
    when no non-null span starts at microsecond [0] (see C1) and the window
    is at most [int64_max] wide (the code subtracts in [int64]). *)
Theorem Evaluate_sampled_iff_criteria df tid t :
  (forall sp, In sp (nonNullSpans (ReceivedBatches t)) -> fieldsPresent sp = true) ->
  (minDurationMicros df <> None ->
     (forall sp, In sp (nonNullSpans (ReceivedBatches t)) ->
        tsToMicros (StartTime sp) <> Some 0)
     /\ (forall mn mx, specWindow (nonNullSpans (ReceivedBatches t)) = Some (mn, mx) ->
          mx - mn <= int64_max)) ->
  exists d, Evaluate MatchString df tid t = Some (d, None)
    /\ (d = Sampled <->
        opCriterion MatchString df (ReceivedBatches t)
        /\ durCriterion df (ReceivedBatches t)
        /\ countCriterion df (ReceivedBatches t)).
Proof.
  intros H Hdur. destruct (Evaluate_present MatchString df tid t H) as (v & Hf & Hw & HE).
  eexists. split; [exact HE|].
  rewrite <- (durCriterion_code df _ Hdur).
  rewrite <- (operationNameCondition_iff MatchString df _ v Hf),
          <- (minDurationCondition_iff df _ v Hw),
          <- (minSpanCountCondition_iff df).
  destruct (minDurationConditionMet df v), (operationNameConditionMet df v),
           (minSpanCountConditionMet df _);
    cbn; split; intuition discriminate.
Qed.

(** C4: [NewSpanPropertiesFilter] returns an error and a nil evaluator
    exactly when no criterion is set (error "at least one property must be
    defined") or the pattern fails to compile (the compile error itself);
    otherwise it returns an evaluator and a nil error. *)
Theorem NewSpanPropertiesFilter_outcomes lg pat dur n :
  let r := NewSpanPropertiesFilter compile lg pat dur n in
  let failing := (pat = None /\ dur = None /\ n = None)
                 \/ (exists p e, pat = Some p /\ compile p = inr e) in
  ((exists e, r = (None, Some e)) <-> failing)
  /\ ((exists f, r = (Some f, None)) <-> ~ failing)
  /\ (pat = None -> dur = None -> n = None ->
      r = (None, Some (errorString missingPropertyMsg)))
  /\ (forall p e, pat = Some p -> compile p = inr e -> r = (None, Some e)).
Proof.
  cbv zeta. unfold NewSpanPropertiesFilter.
  destruct pat as [p|]; [destruct (compile p) as [re|e] eqn:Hc|].
  - repeat split.
    + intros [e H]. discriminate H.
    + intros [(H & _)|(p' & e & Hp & He)]; [discriminate H|].
      injection Hp as <-. congruence.
    + intros _ [(H & _)|(p' & e & Hp & He)]; [discriminate H|].
      injection Hp as <-. congruence.
    + intros _. eexists; reflexivity.
    + intros H. discriminate H.
    + intros p' e Hp He. injection Hp as <-. congruence.
  - repeat split.
    + intros _. right. exists p, e. split; [reflexivity|exact Hc].
    + intros _. exists e. reflexivity.
    + intros [f H]. discriminate H.
    + intros H. exfalso. apply H. right. exists p, e. split; [reflexivity|exact Hc].
    + intros H. discriminate H.
    + intros p' e' Hp He. injection Hp as <-. congruence.
  - destruct dur, n; cbn; repeat split;
      try (intros [? H]; discriminate H);
      try (intros [(? & H & ?)|(? & ? & H & ?)]; discriminate H);
      try (intros [(? & ? & H)|(? & ? & H & ?)]; discriminate H);
      try (intros H; discriminate H);
      try (intros ? ? H; discriminate H);
      try (intros _; eexists; reflexivity);
      try (intros _ H; apply H; left; repeat split);
      try (intros _; left; repeat split);
      try (intros H; exfalso; apply H; left; repeat split);
      try (intros H [(? & H1 & ?)|(? & ? & H1 & ?)]; discriminate H1);
      try (intros H [(? & ? & H1)|(? & ? & H1 & ?)]; discriminate H1);
      try (intros _ H; discriminate H).
Qed.

(** C5: [EvaluateSecondChance] and [OnDroppedSpans] return [NotSampled]
    with a nil error on every input. *)
Theorem secondChance_and_dropped_not_sampled
    (df : spanPropertiesFilter Regexp) tid t :
  EvaluateSecondChance df tid t = Some (NotSampled, None)
  /\ OnDroppedSpans df tid t = Some (NotSampled, None).
Proof. split; reflexivity. Qed.

(** C6: in any sequence of calls on one policy instance, every
    [OnLateArrivingSpans] returns a nil error, and the results of the other
    calls are those of the same sequence without the
    [OnLateArrivingSpans] calls. *)
Theorem late_arriving_spans_no_effect df cs :
  decisionResults (runCalls MatchString df cs)
  = runCalls MatchString df (filter (fun c => negb (isLateCall c)) cs)
  /\ Forall (fun e => e = None) (lateErrors (runCalls MatchString df cs)).
Proof.
  induction cs as [|c cs [IH1 IH2]]; [split; [reflexivity|constructor]|].
  destruct c; cbn [runCalls filter isLateCall negb OnLateArrivingSpans];
    cbn [decisionResults lateErrors filter flat_map app];
    split; try (constructor; [reflexivity|]); try exact IH2;
    unfold decisionResults in IH1; try rewrite IH1; reflexivity.
Qed.

(** C7 (amended): for non-negative nanoseconds [n], [tsToMicros] returns
    [s * 1000000 + n / 1000] (remainder truncated) reduced to [int64] by
    two's-complement wrap-around; the result is exactly that value whenever
    it lies in the [int64] range. *)
Theorem tsToMicros_truncates s n :
  0 <= n ->
  tsToMicros (Some (mkTimestamp s n)) = Some (wrap64 (s * 1000000 + n / 1000))
  /\ (int64_min <= s * 1000000 + n / 1000 <= int64_max ->
      tsToMicros (Some (mkTimestamp s n)) = Some (s * 1000000 + n / 1000)).
Proof.
  intro Hn.
  assert (H : tsToMicros (Some (mkTimestamp s n)) = Some (wrap64 (s * 1000000 + n / 1000))).
  { cbv [tsToMicros deref bind ret]. cbn [Seconds Nanos].
    rewrite Z.quot_div_nonneg by lia. f_equal.
    apply wrap64_congr. rewrite Zplus_mod, wrap64_mod, <- Zplus_mod. reflexivity. }
  split; [exact H|]. intro Hr. rewrite H. f_equal. apply wrap64_small. exact Hr.
Qed.

(** C8 (amended): with a pattern configured, a non-null span with a nil
    [Name] makes [Evaluate] panic when no non-null span before it in scan
    order has a matching name; with a duration threshold configured, a
    non-null span with a nil [StartTime] or [EndTime] always makes it panic;
    when every non-null span has its name and timestamps set, [Evaluate]
    returns a decision with a nil error; and once a non-null span has
    matched, the name of a later span is not read: replacing it (by a nil
    one, say) leaves the result unchanged. *)
Theorem Evaluate_nil_fields df tid t pre sp post :
  allSpans (ReceivedBatches t) = pre ++ Some sp :: post ->
  (forall re, operationRe df = Some re -> Name sp = None ->
     (forall q, In q (somes pre) -> nameMatches MatchString re q = false) ->
     Evaluate MatchString df tid t = None)
  /\ (forall d, minDurationMicros df = Some d ->
      StartTime sp = None \/ EndTime sp = None ->
      Evaluate MatchString df tid t = None)
  /\ ((forall q, In q (nonNullSpans (ReceivedBatches t)) -> fieldsPresent q = true) ->
      exists dec, Evaluate MatchString df tid t = Some (dec, None))
  /\ (forall re sp' t', operationRe df = Some re ->
      (exists q, In q (somes pre) /\ nameMatches MatchString re q = true) ->
      StartTime sp' = StartTime sp -> EndTime sp' = EndTime sp ->
      allSpans (ReceivedBatches t') = pre ++ Some sp' :: post ->
      Evaluate MatchString df tid t' = Evaluate MatchString df tid t).
Proof.
  intro Hall. split; [|split; [|split]].
  - intros re Hre Hname Hq.
    rewrite Evaluate_scan, scanBatches_flatten, Hall, range_loop_app.
    destruct (range_loop (spanStep MatchString df) initLoopVars pre) as [v|] eqn:E;
      [|reflexivity].
    pose proof (prefix_no_match df re pre initLoopVars v Hre eq_refl Hq E) as Hf.
    cbn [bind range_loop]. unfold spanStep at 1. rewrite Hre, Hf, Hname. reflexivity.
  - intros d Hd Hts.
    rewrite Evaluate_scan, scanBatches_flatten, Hall, range_loop_app.
    destruct (range_loop (spanStep MatchString df) initLoopVars pre) as [v|];
      [|reflexivity].
    cbn [bind range_loop].
    assert (Hstep : spanStep MatchString df v (Some sp) = None).
    { unfold spanStep. rewrite Hd.
      destruct (match operationRe df with
                | Some re => _ | None => _ end) as [b|]; cbn [bind]; [|reflexivity].
      destruct Hts as [Hs|He].
      - rewrite Hs. reflexivity.
      - destruct (tsToMicros (StartTime sp)); cbn [bind]; [|reflexivity].
        rewrite He. reflexivity. }
    rewrite Hstep. reflexivity.
  - intro Hp. destruct (Evaluate_present MatchString df tid t Hp) as (v & _ & _ & HE).
    eexists. exact HE.
  - intros re sp' t' Hre Hm Hs He Hall'.
    rewrite !Evaluate_scan, !scanBatches_flatten.
    assert (Htot : totalEntries (ReceivedBatches t') = totalEntries (ReceivedBatches t)).
    { unfold totalEntries. rewrite Hall, Hall', !length_app. reflexivity. }
    rewrite Htot, Hall, Hall', !range_loop_app.
    destruct (range_loop (spanStep MatchString df) initLoopVars pre) as [v|] eqn:E;
      [|reflexivity].
    pose proof (prefix_match_found df re pre Hre initLoopVars v (or_intror Hm) E) as Hf.
    cbn [bind range_loop]. unfold spanStep at 1 3. rewrite Hre, Hf, Hs, He.
    reflexivity.
Qed.

(** C9: with only a span-count threshold configured and that threshold at
    most zero, [Evaluate] returns [Sampled] with a nil error on every trace,
    the trace with no batches included. *)
Theorem nonpositive_span_count_samples_all df tid t n :
  operationRe df = None -> minDurationMicros df = None ->
  minNumberOfSpans df = Some n -> n <= 0 ->
  Evaluate MatchString df tid t = Some (Sampled, None).
Proof.
  intros Hre Hd Hn Hle.
  rewrite Evaluate_scan, scanBatches_flatten,
          (range_loop_unconfigured df _ _ Hre Hd).
  cbn [bind ret].
  unfold minDurationConditionMet, operationNameConditionMet, minSpanCountConditionMet.
  rewrite Hre, Hd, Hn. cbn [andb].
  pose proof (totalEntries_nonneg (ReceivedBatches t)).
  replace (totalEntries (ReceivedBatches t) >=? n) with true; [reflexivity|].
  symmetry. apply Z.geb_le. lia.
Qed.

End Claims.

(** ** Concrete runs *)

(** C1: on spans [0..100] and [50..300] microseconds in two batches the
    window is [50..300]: the first span starts at [0], the value [Evaluate]
    uses for an unset [minStartTime], so the second span re-initialises
    both bounds. The duration is 250, a threshold of 300 gives [NotSampled]
    (as does 301) and 250 gives [Sampled]. *)
Theorem twoBatch_window_is_250 :
  scanBatches LiteralRegexp.MatchString (durationPolicy 300)
    (ReceivedBatches twoBatchTrace) = Some (2, mkLoopVars false 50 300)
  /\ Evaluate LiteralRegexp.MatchString (durationPolicy 300) someTraceID twoBatchTrace
     = Some (NotSampled, None)
  /\ Evaluate LiteralRegexp.MatchString (durationPolicy 301) someTraceID twoBatchTrace
     = Some (NotSampled, None)
  /\ Evaluate LiteralRegexp.MatchString (durationPolicy 250) someTraceID twoBatchTrace
     = Some (Sampled, None).
Proof. vm_compute. repeat split. Qed.

(** C2, refuted: a batch with one span and one null entry gives
    [spanCount = 2] though it has one non-null span, so a threshold of 2
    spans is met. *)
Lemma null_entry_counted :
  option_map fst (scanBatches LiteralRegexp.MatchString (countPolicy 2)
                    (ReceivedBatches nullEntryTrace)) = Some 2
  /\ List.length (nonNullSpans (ReceivedBatches nullEntryTrace)) = 1%nat
  /\ Evaluate LiteralRegexp.MatchString (countPolicy 2) someTraceID nullEntryTrace
     = Some (Sampled, None).
Proof. vm_compute. repeat split. Qed.

Lemma spanCount_counts_null_entries_witness :
  scanBatches LiteralRegexp.MatchString (countPolicy 2) (ReceivedBatches nullEntryTrace)
  = bind (scanBatches LiteralRegexp.MatchString (countPolicy 2)
            (stripNulls (ReceivedBatches nullEntryTrace)))
         (fun r => ret (fst r + nullEntries (ReceivedBatches nullEntryTrace), snd r))
  /\ scanBatches LiteralRegexp.MatchString (countPolicy 2)
       (ReceivedBatches nullEntryTrace) = Some (2, initLoopVars)
  /\ 2 = totalEntries (ReceivedBatches nullEntryTrace)
  /\ Evaluate LiteralRegexp.MatchString (durationPolicy 5) someTraceID nullEntryTrace
     = Evaluate LiteralRegexp.MatchString (durationPolicy 5) someTraceID
         (mkTraceData (stripNulls (ReceivedBatches nullEntryTrace))).
Proof.
  destruct (spanCount_counts_null_entries LiteralRegexp.MatchString (countPolicy 2)
              (ReceivedBatches nullEntryTrace)) as (H1 & H2 & _).
  destruct (spanCount_counts_null_entries LiteralRegexp.MatchString (durationPolicy 5)
              (ReceivedBatches nullEntryTrace)) as (_ & _ & H3).
  split; [exact H1|]. split; [reflexivity|]. split.
  - apply (H2 2 initLoopVars). reflexivity.
  - apply H3. reflexivity.
Defined.

(** C3, refuted: with a pattern configured, a span with a nil name ahead
    of a matching span makes [Evaluate] panic though every criterion
    holds. *)
Lemma unnamed_span_before_match_panics :
  opCriterion LiteralRegexp.MatchString (namePolicy "a"%string)
    (ReceivedBatches unnamedFirstTrace)
  /\ durCriterion (namePolicy "a"%string) (ReceivedBatches unnamedFirstTrace)
  /\ countCriterion (namePolicy "a"%string) (ReceivedBatches unnamedFirstTrace)
  /\ Evaluate LiteralRegexp.MatchString (namePolicy "a"%string) someTraceID
       unnamedFirstTrace = None.
Proof.
  split; [|split; [exact I|split; [exact I|reflexivity]]].
  exists (timedSpan "a"%string 0 10). split; [|reflexivity].
  cbn. right. left. reflexivity.
Qed.

Lemma Evaluate_sampled_iff_criteria_witness :
  exists d,
    Evaluate LiteralRegexp.MatchString fullPolicy someTraceID windowTrace
    = Some (d, None)
    /\ (d = Sampled <->
        opCriterion LiteralRegexp.MatchString fullPolicy (ReceivedBatches windowTrace)
        /\ durCriterion fullPolicy (ReceivedBatches windowTrace)
        /\ countCriterion fullPolicy (ReceivedBatches windowTrace)).
Proof.
  apply (Evaluate_sampled_iff_criteria LiteralRegexp.MatchString).
  - intros sp Hin. cbn in Hin. destruct Hin as [<-|[<-|[]]]; reflexivity.
  - intros _. split.
    + intros sp Hin. cbn in Hin.
      destruct Hin as [<-|[<-|[]]]; vm_compute; intro H; discriminate H.
    + intros mn mx Hw. vm_compute in Hw. injection Hw as <- <-.
      apply Z.leb_le. reflexivity.
Defined.

Lemma NewSpanPropertiesFilter_outcomes_witness :
  NewSpanPropertiesFilter LiteralRegexp.compile tt None None None
    = (None, Some (errorString missingPropertyMsg))
  /\ NewSpanPropertiesFilter LiteralRegexp.compile tt (Some "a("%string) None None
    = (None, Some (syntaxError "missing closing )" "a("))
  /\ exists f, NewSpanPropertiesFilter LiteralRegexp.compile tt (Some "a"%string) None None
    = (Some f, None).
Proof.
  destruct (NewSpanPropertiesFilter_outcomes LiteralRegexp.compile tt None None None)
    as (_ & _ & H1 & _).
  destruct (NewSpanPropertiesFilter_outcomes LiteralRegexp.compile tt
              (Some "a("%string) None None) as (_ & _ & _ & H2).
  destruct (NewSpanPropertiesFilter_outcomes LiteralRegexp.compile tt
              (Some "a"%string) None None) as (_ & [_ H3] & _ & _).
  split; [exact (H1 eq_refl eq_refl eq_refl)|]. split.
  - apply (H2 "a("%string). reflexivity. reflexivity.
  - apply H3. intros [(H & _)|(p & e & Hp & He)]; [discriminate H|].
    injection Hp as <-. discriminate He.
Defined.

(** C7, refuted: [9223372036855] seconds times [10^6] leaves the [int64]
    range and wraps to a negative count. *)
Lemma tsToMicros_overflow :
  tsToMicros (Some (mkTimestamp 9223372036855 0))
  <> Some (9223372036855 * 1000000 + 0 / 1000)
  /\ tsToMicros (Some (mkTimestamp 9223372036855 0)) = Some (-9223372036854551616).
Proof. split; [vm_compute; intro H; discriminate H|reflexivity]. Qed.

Lemma tsToMicros_truncates_witness :
  tsToMicros (Some (mkTimestamp 1 1999))
    = Some (wrap64 (1 * 1000000 + 1999 / 1000))
  /\ tsToMicros (Some (mkTimestamp 1 1999)) = Some (1 * 1000000 + 1999 / 1000).
Proof.
  destruct (tsToMicros_truncates 1 1999) as [H1 H2]; [lia|].
  split; [exact H1|]. apply H2. split; apply Z.leb_le; reflexivity.
Defined.

(** C8, refuted: once a span has matched the pattern, later names are not
    read, so a later span with a nil name does not make [Evaluate] panic. *)
Lemma unnamed_span_after_match_no_panic :
  In unnamedSpan (nonNullSpans (ReceivedBatches unnamedAfterMatchTrace))
  /\ Name unnamedSpan = None
  /\ Evaluate LiteralRegexp.MatchString (namePolicy "a"%string) someTraceID
       unnamedAfterMatchTrace = Some (Sampled, None).
Proof. split; [cbn; right; left; reflexivity|split; reflexivity]. Qed.

Lemma Evaluate_nil_fields_witness :
  Evaluate LiteralRegexp.MatchString (namePolicy "a"%string) someTraceID
    unnamedSecondTrace = None
  /\ Evaluate LiteralRegexp.MatchString (durationPolicy 1) someTraceID
    (mkTraceData [mkBatch [Some (mkSpan None None None)]]) = None
  /\ (exists dec, Evaluate LiteralRegexp.MatchString (namePolicy "a"%string) someTraceID
       twoBatchTrace = Some (dec, None))
  /\ Evaluate LiteralRegexp.MatchString (namePolicy "a"%string) someTraceID
       unnamedAfterMatchTrace
     = Evaluate LiteralRegexp.MatchString (namePolicy "a"%string) someTraceID
       namedAfterMatchTrace.
Proof.
  destruct (Evaluate_nil_fields LiteralRegexp.MatchString (namePolicy "a"%string)
              someTraceID unnamedSecondTrace [Some (timedSpan "x"%string 0 10)] unnamedSpan
              [Some (timedSpan "a"%string 0 10)] eq_refl) as (H1 & _ & _ & _).
  destruct (Evaluate_nil_fields LiteralRegexp.MatchString (durationPolicy 1)
              someTraceID (mkTraceData [mkBatch [Some (mkSpan None None None)]])
              [] (mkSpan None None None) [] eq_refl) as (_ & H2 & _ & _).
  destruct (Evaluate_nil_fields LiteralRegexp.MatchString (namePolicy "a"%string)
              someTraceID twoBatchTrace [] (timedSpan "a"%string 0 100)
              [Some (timedSpan "b"%string 50 300)] eq_refl) as (_ & _ & H3 & _).
  destruct (Evaluate_nil_fields LiteralRegexp.MatchString (namePolicy "a"%string)
              someTraceID namedAfterMatchTrace [Some (timedSpan "a"%string 0 10)]
              (timedSpan "z"%string 0 10) [] eq_refl) as (_ & _ & _ & H4).
  split; [|split; [|split]].
  - apply (H1 "a"%string); [reflexivity|reflexivity|].
    intros q Hin. cbn in Hin. destruct Hin as [<-|[]]. reflexivity.
  - apply (H2 1); [reflexivity|]. left. reflexivity.
  - apply H3. intros q Hin. cbn in Hin. destruct Hin as [<-|[<-|[]]]; reflexivity.
  - apply (H4 "a"%string unnamedSpan); [reflexivity| |reflexivity|reflexivity|reflexivity].
    exists (timedSpan "a"%string 0 10). split; [left; reflexivity|reflexivity].
Defined.

Lemma nonpositive_span_count_samples_all_witness :
  Evaluate LiteralRegexp.MatchString (countPolicy 0) someTraceID emptyTrace
    = Some (Sampled, None)
  /\ Evaluate LiteralRegexp.MatchString (countPolicy (-3)) someTraceID nullEntryTrace
    = Some (Sampled, None).
Proof.
  split.
  - apply (nonpositive_span_count_samples_all LiteralRegexp.MatchString
             (countPolicy 0) someTraceID emptyTrace 0); reflexivity || lia.
  - apply (nonpositive_span_count_samples_all LiteralRegexp.MatchString
             (countPolicy (-3)) someTraceID nullEntryTrace (-3)); reflexivity || lia.
Defined.

(** ** Further properties of the policy *)

Section Extras.

Context {Regexp : Type}.
Variable MatchString : Regexp -> string -> bool.

Lemma spanStep_split df x v vN vD :
  matchingOperationFound vN = matchingOperationFound v ->
  minStartTime vD = minStartTime v -> maxEndTime vD = maxEndTime v ->
  spanStep MatchString df v x
  = mergeLoopVars (spanStep MatchString (onlyName df) vN x)
                  (spanStep MatchString (onlyDuration df) vD x).
Proof.
  intros HN Hmn Hmx. destruct x as [sp|].
  - unfold spanStep. cbn [onlyName onlyDuration operationRe minDurationMicros].
    rewrite HN, Hmn, Hmx.
    destruct (operationRe df) as [re|];
      [destruct (negb (matchingOperationFound v)); [destruct (Name sp) as [nm|]|]|];
      cbn [bind deref ret]; try reflexivity;
      (destruct (minDurationMicros df) as [d|];
       [destruct (tsToMicros (StartTime sp)) as [s|], (tsToMicros (EndTime sp)) as [e|];
        cbn [bind ret]; [destruct (minStartTime v =? 0)| | |]|]); reflexivity.
  - cbn. rewrite HN, Hmn, Hmx. destruct v; reflexivity.
Qed.

(** The combined loop is the name-only loop for the match flag and the
    duration-only loop for the bounds; it panics iff one of them does. *)
Lemma range_loop_split df xs : forall v vN vD,
  matchingOperationFound vN = matchingOperationFound v ->
  minStartTime vD = minStartTime v -> maxEndTime vD = maxEndTime v ->
  range_loop (spanStep MatchString df) v xs
  = mergeLoopVars (range_loop (spanStep MatchString (onlyName df)) vN xs)
                  (range_loop (spanStep MatchString (onlyDuration df)) vD xs).
Proof.
  induction xs as [|x xs IH]; intros v vN vD HN Hmn Hmx.
  - cbn. rewrite HN, Hmn, Hmx. destruct v; reflexivity.
  - cbn [range_loop]. rewrite (spanStep_split df x v vN vD HN Hmn Hmx).
    destruct (spanStep MatchString (onlyName df) vN x) as [a|]; [|reflexivity].
    destruct (spanStep MatchString (onlyDuration df) vD x) as [b|];
      cbn [mergeLoopVars bind].
    + apply IH; reflexivity.
    + destruct (range_loop _ a xs); reflexivity.
Qed.

Lemma Evaluate_merge df tid t :
  Evaluate MatchString df tid t
  = andResults (Evaluate MatchString (onlyName df) tid t)
               (Evaluate MatchString (onlyDuration df) tid t)
               (Evaluate MatchString (onlyCount df) tid t).
Proof.
  rewrite !Evaluate_scan, !scanBatches_flatten.
  rewrite (range_loop_split df _ initLoopVars initLoopVars initLoopVars eq_refl eq_refl eq_refl).
  rewrite (range_loop_unconfigured MatchString (onlyCount df)) by reflexivity.
  destruct (range_loop (spanStep MatchString (onlyName df)) _ _) as [a|];
    [|reflexivity].
  destruct (range_loop (spanStep MatchString (onlyDuration df)) _ _) as [b|];
    cbn [mergeLoopVars bind]; [|unfold andResults; cbn [bind ret]; destruct (_ && _ && _); reflexivity].
  unfold andResults; cbn [bind ret].
  unfold minDurationConditionMet, operationNameConditionMet, minSpanCountConditionMet.
  cbn [onlyName onlyDuration onlyCount operationRe minDurationMicros minNumberOfSpans
       matchingOperationFound minStartTime maxEndTime andb initLoopVars].
  destruct (operationRe df), (minDurationMicros df), (minNumberOfSpans df);
    cbn [andb];
    repeat match goal with
    | |- context [matchingOperationFound ?a] => destruct (matchingOperationFound a)
    | |- context [?x >? ?y] => destruct (x >? y)
    | |- context [?x >=? ?y] => destruct (x >=? y)
    end; reflexivity.
Qed.

Lemma allSpans_app bs1 bs2 : allSpans (bs1 ++ bs2) = allSpans bs1 ++ allSpans bs2.
Proof. unfold allSpans. now rewrite map_app, concat_app. Qed.

Lemma totalEntries_app bs1 bs2 :
  totalEntries (bs1 ++ bs2) = totalEntries bs1 + totalEntries bs2.
Proof. unfold totalEntries. rewrite allSpans_app, length_app. lia. Qed.

(** Once a match is found (or with no pattern), and with no duration
    threshold, the inner loop reads nothing and leaves its state. *)
Lemma range_loop_settled df v xs :
  minDurationMicros df = None ->
  (operationRe df = None \/ matchingOperationFound v = true) ->
  range_loop (spanStep MatchString df) v xs = Some v.
Proof.
  intros Hd Hf. induction xs as [|[sp|] xs IH]; [reflexivity| |exact IH].
  cbn [range_loop]. unfold spanStep at 1. rewrite Hd.
  destruct Hf as [Hre|Hf].
  - rewrite Hre. cbn [bind ret]. destruct v. exact IH.
  - rewrite Hf. destruct (operationRe df); cbn [negb bind ret]; destruct v;
      cbn in Hf; subst; exact IH.
Qed.

(** A span-level transformation that the loop body does not see. *)
Lemma Evaluate_mapSpans df f tid t :
  (forall v sp, spanStep MatchString df v (Some (f sp)) = spanStep MatchString df v (Some sp)) ->
  Evaluate MatchString df tid (mapSpans f t) = Evaluate MatchString df tid t.
Proof.
  intro Hf.
  assert (Hall : allSpans (ReceivedBatches (mapSpans f t))
                 = map (option_map f) (allSpans (ReceivedBatches t))).
  { unfold mapSpans, allSpans. cbn [ReceivedBatches].
    induction (ReceivedBatches t) as [|b bs IH]; [reflexivity|].
    cbn [map concat]. rewrite IH, map_app. reflexivity. }
  rewrite !Evaluate_scan, !scanBatches_flatten, Hall.
  assert (Htot : totalEntries (ReceivedBatches (mapSpans f t)) = totalEntries (ReceivedBatches t)).
  { unfold totalEntries. rewrite Hall, length_map. reflexivity. }
  rewrite Htot.
  assert (Hloop : forall xs v, range_loop (spanStep MatchString df) v (map (option_map f) xs)
                               = range_loop (spanStep MatchString df) v xs).
  { induction xs as [|[sp|] xs IH]; intro v; [reflexivity| |apply IH].
    cbn [map option_map range_loop]. rewrite Hf.
    destruct (spanStep MatchString df v (Some sp)); [apply IH|reflexivity]. }
  rewrite Hloop. reflexivity.
Qed.

(** How spans are split into batches does not matter: two traces with the
    same entries in the same order get the same result. *)
Theorem Evaluate_batch_regrouping df tid bs1 bs2 :
  allSpans bs1 = allSpans bs2 ->
  Evaluate MatchString df tid (mkTraceData bs1) = Evaluate MatchString df tid (mkTraceData bs2).
Proof.
  intro H. rewrite !Evaluate_scan, !scanBatches_flatten. cbn [ReceivedBatches].
  unfold totalEntries. rewrite H. reflexivity.
Qed.

(** With neither a pattern nor a duration threshold, [Evaluate] never
    panics, whatever the spans hold, and samples iff the number of entries
    reaches the span-count threshold (always, if there is none). *)
Theorem Evaluate_count_only df tid t :
  operationRe df = None -> minDurationMicros df = None ->
  Evaluate MatchString df tid t
  = Some (if match minNumberOfSpans df with
             | Some n => n <=? totalEntries (ReceivedBatches t)
             | None => true
             end then Sampled else NotSampled, None).
Proof.
  intros Hre Hd. rewrite Evaluate_scan, scanBatches_flatten.
  rewrite (range_loop_unconfigured MatchString df _ _ Hre Hd). cbn [bind ret].
  unfold minDurationConditionMet, operationNameConditionMet, minSpanCountConditionMet.
  rewrite Hre, Hd. cbn [andb].
  destruct (minNumberOfSpans df) as [n|]; [|reflexivity].
  rewrite Z.geb_leb. destruct (n <=? _); reflexivity.
Qed.

(** Without a duration threshold a [Sampled] verdict stands when more
    batches are appended, whatever they hold: a found match stops the name
    checks and the span count only grows. *)
Theorem Evaluate_sampled_stable_under_append df tid bs more :
  minDurationMicros df = None ->
  Evaluate MatchString df tid (mkTraceData bs) = Some (Sampled, None) ->
  Evaluate MatchString df tid (mkTraceData (bs ++ more)) = Some (Sampled, None).
Proof.
  intros Hd H. rewrite Evaluate_scan, scanBatches_flatten in *. cbn [ReceivedBatches] in *.
  rewrite allSpans_app, range_loop_app, totalEntries_app.
  destruct (range_loop (spanStep MatchString df) initLoopVars (allSpans bs)) as [v|];
    cbn [bind ret] in *; [|discriminate H].
  assert (Hc : minDurationConditionMet df v && operationNameConditionMet df v
               && minSpanCountConditionMet df (totalEntries bs) = true).
  { destruct (_ && _ && _); [reflexivity|discriminate H]. }
  clear H. apply andb_true_iff in Hc as [Hc Hcount]. apply andb_true_iff in Hc as [_ Hop].
  assert (Hset : operationRe df = None \/ matchingOperationFound v = true).
  { unfold operationNameConditionMet in Hop.
    destruct (operationRe df); [right; exact Hop|left; reflexivity]. }
  rewrite (range_loop_settled df v _ Hd Hset). cbn [bind ret].
  unfold minDurationConditionMet. rewrite Hd, Hop. cbn [andb].
  replace (minSpanCountConditionMet df _) with true; [reflexivity|].
  unfold minSpanCountConditionMet in *. symmetry.
  destruct (minNumberOfSpans df) as [n|]; [|reflexivity].
  pose proof (totalEntries_nonneg more).
  apply Z.geb_le in Hcount. apply Z.geb_le. lia.
Qed.

(** On a trace with no span entries at all (no batches, or only empty
    ones), [Evaluate] samples iff neither a pattern nor a duration threshold
    is set and the span-count threshold, if any, is at most zero. *)
Theorem Evaluate_no_entries df tid bs :
  totalEntries bs = 0 ->
  exists d, Evaluate MatchString df tid (mkTraceData bs) = Some (d, None)
    /\ (d = Sampled <->
        operationRe df = None /\ minDurationMicros df = None
        /\ (forall n, minNumberOfSpans df = Some n -> n <= 0)).
Proof.
  intro H0.
  assert (Hnil : allSpans bs = []).
  { apply length_zero_iff_nil. unfold totalEntries in H0. lia. }
  rewrite Evaluate_scan, scanBatches_flatten. cbn [ReceivedBatches].
  rewrite Hnil, H0. cbn [range_loop bind ret].
  match goal with |- exists d, (if ?b then _ else _) = _ /\ _ =>
    exists (if b then Sampled else NotSampled); split; [destruct b; reflexivity|] end.
  unfold minDurationConditionMet, operationNameConditionMet, minSpanCountConditionMet.
  cbn [initLoopVars matchingOperationFound minStartTime maxEndTime].
  destruct (operationRe df), (minDurationMicros df), (minNumberOfSpans df) as [n|];
    simpl;
    try (split; [intro H; discriminate H|intros (H & _); discriminate H]);
    try (split; [intro H; discriminate H|intros (_ & H & _); discriminate H]).
  - destruct (0 >=? n) eqn:E.
    + apply Z.geb_le in E. split; [|reflexivity].
      intros _. repeat split; intros m Hm; injection Hm as <-; exact E.
    + split; [intro H; discriminate H|]. intros (_ & _ & H).
      specialize (H n eq_refl). rewrite Z.geb_leb in E. apply Z.leb_gt in E. lia.
  - split; [|reflexivity]. intros _. repeat split; intros m Hm; discriminate Hm.
Qed.

(** Without a duration threshold the span timestamps are never read:
    setting them all to nil changes nothing. *)
Theorem Evaluate_ignores_times_without_duration df tid t :
  minDurationMicros df = None ->
  Evaluate MatchString df tid (eraseTimes t) = Evaluate MatchString df tid t.
Proof.
  intro Hd. apply Evaluate_mapSpans. intros v sp.
  unfold spanStep. rewrite Hd. reflexivity.
Qed.

(** Without a pattern the span names are never read: setting them all to
    nil changes nothing. *)
Theorem Evaluate_ignores_names_without_pattern df tid t :
  operationRe df = None ->
  Evaluate MatchString df tid (eraseNames t) = Evaluate MatchString df tid t.
Proof.
  intro Hre. apply Evaluate_mapSpans. intros v sp.
  unfold spanStep. rewrite Hre. reflexivity.
Qed.

Lemma spanStep_bounds df d v sp v1 s e :
  minDurationMicros df = Some d -> spanBounds sp = Some (s, e) ->
  spanStep MatchString df v (Some sp) = Some v1 ->
  minStartTime v1 = (if minStartTime v =? 0 then s else Z.min s (minStartTime v))
  /\ maxEndTime v1 = (if minStartTime v =? 0 then e else Z.max e (maxEndTime v)).
Proof.
  intros Hd Hb H. unfold spanBounds in Hb.
  destruct (tsToMicros (StartTime sp)) as [s'|] eqn:Es; cbn [bind] in Hb; [|discriminate Hb].
  destruct (tsToMicros (EndTime sp)) as [e'|] eqn:Ee; cbn [bind ret] in Hb; [|discriminate Hb].
  injection Hb as <- <-.
  unfold spanStep in H. rewrite Hd, Es, Ee in H.
  destruct (operationRe df) as [re|];
    [destruct (negb (matchingOperationFound v)); [destruct (Name sp)|]|];
    cbn [bind deref ret] in H; try discriminate H;
    destruct (minStartTime v =? 0); injection H as <-; cbn [minStartTime maxEndTime];
    rewrite ?ltb_select_min, ?gtb_select_max; split; reflexivity.
Qed.

Lemma range_loop_window df d xs : forall ps v v',
  minDurationMicros df = Some d -> boundsOf xs = Some ps ->
  Forall (fun p => fst p <> 0) ps -> minStartTime v <> 0 ->
  range_loop (spanStep MatchString df) v (map Some xs) = Some v' ->
  minStartTime v' = fold_left Z.min (map fst ps) (minStartTime v)
  /\ maxEndTime v' = fold_left Z.max (map snd ps) (maxEndTime v).
Proof.
  induction xs as [|sp xs IH]; intros ps v v' Hd Hb Hps Hv H.
  - cbn in Hb, H. injection Hb as <-. injection H as <-. split; reflexivity.
  - cbn [boundsOf] in Hb.
    destruct (spanBounds sp) as [[s e]|] eqn:Esp; cbn [bind] in Hb; [|discriminate Hb].
    destruct (boundsOf xs) as [ps'|]; cbn [bind ret] in Hb; [|discriminate Hb].
    injection Hb as <-. inversion Hps as [|? ? Hs Hps']; subst. cbn [fst] in Hs.
    cbn [map range_loop] in H.
    destruct (spanStep MatchString df v (Some sp)) as [v1|] eqn:Estep;
      cbn [bind] in H; [|discriminate H].
    destruct (spanStep_bounds df d v sp v1 s e Hd Esp Estep) as [Hmn Hmx].
    apply Z.eqb_neq in Hv as Hv0. rewrite Hv0 in Hmn, Hmx.
    assert (Hv1 : minStartTime v1 <> 0).
    { rewrite Hmn. destruct (Z.min_spec s (minStartTime v)) as [[_ ->]|[_ ->]]; assumption. }
    destruct (IH ps' v1 v' Hd eq_refl Hps' Hv1 H) as [H1 H2].
    cbn [map fold_left]. rewrite H1, H2, Hmn, Hmx, Z.min_comm, Z.max_comm.
    split; reflexivity.
Qed.

(** With a duration threshold, if no non-null span starts at microsecond
    0, the bounds [Evaluate] computes are the least start and the greatest
    end over all non-null spans. *)
Theorem Evaluate_window_global_without_zero_start df d bs c v s0 e0 ps :
  minDurationMicros df = Some d ->
  scanBatches MatchString df bs = Some (c, v) ->
  boundsOf (nonNullSpans bs) = Some ((s0, e0) :: ps) ->
  s0 <> 0 -> Forall (fun p => fst p <> 0) ps ->
  minStartTime v = fold_left Z.min (map fst ps) s0
  /\ maxEndTime v = fold_left Z.max (map snd ps) e0.
Proof.
  intros Hd H Hb Hs0 Hps.
  rewrite scanBatches_flatten, range_loop_skip_nulls in H.
  change (somes (allSpans bs)) with (nonNullSpans bs) in H.
  destruct (nonNullSpans bs) as [|sp0 xs]; cbn [boundsOf ret] in Hb; [discriminate Hb|].
  destruct (spanBounds sp0) as [[s e]|] eqn:Esp; cbn [bind] in Hb; [|discriminate Hb].
  destruct (boundsOf xs) as [ps'|] eqn:Exs; cbn [bind ret] in Hb; [|discriminate Hb].
  injection Hb as -> -> ->.
  cbn [map range_loop] in H.
  destruct (spanStep MatchString df initLoopVars (Some sp0)) as [v1|] eqn:Estep;
    cbn [bind] in H; [|discriminate H].
  destruct (range_loop (spanStep MatchString df) v1 (map Some xs)) as [v2|] eqn:Eloop;
    cbn [bind ret] in H; [|discriminate H].
  injection H as _ <-.
  destruct (spanStep_bounds df d initLoopVars sp0 v1 s0 e0 Hd Esp Estep) as [Hmn Hmx].
  cbn [initLoopVars minStartTime Z.eqb] in Hmn, Hmx.
  rewrite <- Hmn, <- Hmx.
  apply (range_loop_window df d xs ps v1 v2 Hd Exs Hps); [rewrite Hmn; exact Hs0|exact Eloop].
Qed.

Lemma tsToMicros_some s n :
  tsToMicros (Some (mkTimestamp s n)) = Some (wrap64 (s * 1000000 + Z.quot n 1000)).
Proof.
  cbv [tsToMicros deref bind ret]. cbn [Seconds Nanos]. f_equal.
  apply wrap64_congr. rewrite Zplus_mod, wrap64_mod, <- Zplus_mod. reflexivity.
Qed.

(** For timestamps with nanoseconds in [0, 10^9) whose results fit in
    [int64], [tsToMicros] preserves the order of timestamps. *)
Theorem tsToMicros_monotone s1 n1 s2 n2 :
  0 <= n1 < 1000000000 -> 0 <= n2 < 1000000000 ->
  int64_min <= s1 * 1000000 + n1 / 1000 <= int64_max ->
  int64_min <= s2 * 1000000 + n2 / 1000 <= int64_max ->
  s1 < s2 \/ (s1 = s2 /\ n1 <= n2) ->
  exists m1 m2, tsToMicros (Some (mkTimestamp s1 n1)) = Some m1
    /\ tsToMicros (Some (mkTimestamp s2 n2)) = Some m2 /\ m1 <= m2.
Proof.
  intros Hn1 Hn2 Hr1 Hr2 Hlt.
  rewrite !tsToMicros_some, !Z.quot_div_nonneg by lia.
  rewrite (wrap64_small _ Hr1), (wrap64_small _ Hr2).
  do 2 eexists. split; [reflexivity|]. split; [reflexivity|].
  assert (Hq1 : 0 <= n1 / 1000 < 1000000).
  { split; [apply Z.div_pos; lia|apply Z.div_lt_upper_bound; lia]. }
  assert (Hq2 : 0 <= n2 / 1000 < 1000000).
  { split; [apply Z.div_pos; lia|apply Z.div_lt_upper_bound; lia]. }
  destruct Hlt as [Hlt|[-> Hle]].
  - lia.
  - pose proof (Z.div_le_mono n1 n2 1000 ltac:(lia) Hle). lia.
Qed.

(** Negative nanoseconds are divided toward zero: [tsToMicros] subtracts
    [floor(-n / 1000)], so a remainder of less than a microsecond below
    the second is dropped rather than rounded down. *)
Theorem tsToMicros_negative_nanos s n :
  n < 0 ->
  tsToMicros (Some (mkTimestamp s n)) = Some (wrap64 (s * 1000000 - (- n) / 1000)).
Proof.
  intro Hn. rewrite tsToMicros_some.
  replace n with (- (- n)) at 1 by lia.
  rewrite Z.quot_opp_l, Z.quot_div_nonneg by lia.
  do 2 f_equal.
Qed.

End Extras.

(** ** Concrete runs of the further properties *)

Lemma Evaluate_batch_regrouping_witness :
  Evaluate LiteralRegexp.MatchString (durationPolicy 250) someTraceID
    (mkTraceData (ReceivedBatches twoBatchTrace))
  = Evaluate LiteralRegexp.MatchString (durationPolicy 250) someTraceID
    (mkTraceData (ReceivedBatches regroupedTrace)).
Proof. apply Evaluate_batch_regrouping. reflexivity. Defined.

Lemma Evaluate_count_only_witness :
  Evaluate LiteralRegexp.MatchString (countPolicy 2) someTraceID nullEntryTrace
  = Some (if match minNumberOfSpans (countPolicy 2) with
             | Some n => n <=? totalEntries (ReceivedBatches nullEntryTrace)
             | None => true
             end then Sampled else NotSampled, None).
Proof. apply Evaluate_count_only; reflexivity. Defined.

Lemma Evaluate_sampled_stable_under_append_witness :
  Evaluate LiteralRegexp.MatchString (namePolicy "a"%string) someTraceID
    (mkTraceData (ReceivedBatches nullEntryTrace ++ lateBatches)) = Some (Sampled, None).
Proof. apply Evaluate_sampled_stable_under_append; reflexivity. Defined.

Lemma Evaluate_no_entries_witness :
  exists d, Evaluate LiteralRegexp.MatchString (countPolicy 0) someTraceID
              (mkTraceData [mkBatch []]) = Some (d, None)
    /\ (d = Sampled <->
        operationRe (countPolicy 0) = None /\ minDurationMicros (countPolicy 0) = None
        /\ (forall n, minNumberOfSpans (countPolicy 0) = Some n -> n <= 0)).
Proof. apply Evaluate_no_entries. reflexivity. Defined.

Lemma Evaluate_ignores_times_without_duration_witness :
  Evaluate LiteralRegexp.MatchString (namePolicy "b"%string) someTraceID
    (eraseTimes twoBatchTrace)
  = Evaluate LiteralRegexp.MatchString (namePolicy "b"%string) someTraceID twoBatchTrace.
Proof. apply Evaluate_ignores_times_without_duration. reflexivity. Defined.

Lemma Evaluate_ignores_names_without_pattern_witness :
  Evaluate LiteralRegexp.MatchString (durationPolicy 250) someTraceID
    (eraseNames twoBatchTrace)
  = Evaluate LiteralRegexp.MatchString (durationPolicy 250) someTraceID twoBatchTrace.
Proof. apply Evaluate_ignores_names_without_pattern. reflexivity. Defined.

Lemma Evaluate_window_global_without_zero_start_witness :
  minStartTime (mkLoopVars false 10 300) = fold_left Z.min (map fst [(50, 300)]) 10
  /\ maxEndTime (mkLoopVars false 10 300) = fold_left Z.max (map snd [(50, 300)]) 100.
Proof.
  apply (Evaluate_window_global_without_zero_start LiteralRegexp.MatchString
           (durationPolicy 1) 1 (ReceivedBatches windowTrace) 3
           (mkLoopVars false 10 300) 10 100 [(50, 300)]).
  - reflexivity.
  - reflexivity.
  - reflexivity.
  - discriminate.
  - repeat constructor. cbn. discriminate.
Defined.

Lemma tsToMicros_monotone_witness :
  exists m1 m2, tsToMicros (Some (mkTimestamp 1 999999999)) = Some m1
    /\ tsToMicros (Some (mkTimestamp 2 0)) = Some m2 /\ m1 <= m2.
Proof.
  apply tsToMicros_monotone; try lia;
    try (split; apply Z.leb_le; reflexivity).
Defined.

Lemma tsToMicros_negative_nanos_witness :
  tsToMicros (Some (mkTimestamp 1 (-1500)))
  = Some (wrap64 (1 * 1000000 - (- -1500) / 1000)).
Proof. apply tsToMicros_negative_nanos. lia. Defined.
